(** * Retry wrapper of bredele/retry (src/lib/index.ts)

    A shallow embedding of [shouldRetryError], [calculateDelay] and the
    async closure returned by the default export.

    - JavaScript numbers are modelled as exact rationals [Q]: intervals,
      backoff factors, caps and delays; [maxAttempts] is an integer [Z].
    - The wrapped operation [fn] is an external, stateful collaborator:
      its [k]-th invocation (counted over the whole run) yields the outcome
      [fn k].  Synchronous returns and resolved promises are both [Returns];
      synchronous throws and rejected promises are both [Throws].
    - [Math.random()] is the source [rng]: its [k]-th call yields [rng k].
    - [await delay(ms)] is recorded in the trace as [Wait ms]; an
      invocation of [fn] is recorded as [Call]. *)

From Stdlib Require Import ZArith QArith Qpower Qminmax Lqa List Sorted String Ascii Lia.
Import ListNotations.
Open Scope Z_scope.

(** ** JavaScript values that can be thrown *)

Record error := mkError { name : string; message : string }.

(** Non-[Error] values a function may throw.  An object is given by the
    outcome of converting it with [String(...)], which runs its
    [toString]/[valueOf] and may throw: [Object.create(null)] has neither
    and the conversion throws a [TypeError]. *)
Inductive jsval :=
| JStr (s : string)
| JNum (z : Z)
| JBool (b : bool)
| JNull
| JUndefined
| JSymbol (description : string)
| JObject (conv : conversion)
with conversion :=
| Converts (s : string)
| Conversion_throws (x : raised)
(** A raised value: an [Error] instance or any other value. *)
with raised :=
| Thrown_error (e : error)
| Thrown_value (v : jsval).

Definition digit_char (d : nat) : ascii := ascii_of_nat (48 + d).

(** Decimal digits of a [Decimal.uint]. *)
Fixpoint uint_string (u : Decimal.uint) : string :=
  match u with
  | Decimal.Nil => EmptyString
  | Decimal.D0 u => String (digit_char 0) (uint_string u)
  | Decimal.D1 u => String (digit_char 1) (uint_string u)
  | Decimal.D2 u => String (digit_char 2) (uint_string u)
  | Decimal.D3 u => String (digit_char 3) (uint_string u)
  | Decimal.D4 u => String (digit_char 4) (uint_string u)
  | Decimal.D5 u => String (digit_char 5) (uint_string u)
  | Decimal.D6 u => String (digit_char 6) (uint_string u)
  | Decimal.D7 u => String (digit_char 7) (uint_string u)
  | Decimal.D8 u => String (digit_char 8) (uint_string u)
  | Decimal.D9 u => String (digit_char 9) (uint_string u)
  end.

Definition number_string (z : Z) : string :=
  match Z.to_int z with
  | Decimal.Pos u => uint_string u
  | Decimal.Neg u => String "-" (uint_string u)
  end.

(** [String(value)] on the non-[Error] values: a string, or the value the
    conversion throws. *)
Definition js_String (v : jsval) : conversion :=
  match v with
  | JStr s => Converts s
  | JNum z => Converts (number_string z)
  | JBool true => Converts "true"
  | JBool false => Converts "false"
  | JNull => Converts "null"
  | JUndefined => Converts "undefined"
  | JSymbol d => Converts ("Symbol(" ++ d ++ ")")
  | JObject c => c
  end.

(** [Object.create(null)]: [String] finds no [toString] nor [valueOf]. *)
Definition null_prototype_object : jsval :=
  JObject (Conversion_throws (Thrown_error
    (mkError "TypeError" "Cannot convert object to primitive value"))).

(** [new Error(msg)]: its [name] is ["Error"]. *)
Definition new_Error (msg : string) : error := mkError "Error" msg.

(** Result of line 89: the [Error] assigned to [lastError], or the value
    thrown by [String(error)], which escapes the [catch] block. *)
Inductive normalized :=
| Normalized (e : error)
| Normalize_threw (y : raised).

(** [error instanceof Error ? error : new Error(String(error))] (line 89). *)
Definition normalize (x : raised) : normalized :=
  match x with
  | Thrown_error e => Normalized e
  | Thrown_value v =>
      match js_String v with
      | Converts msg => Normalized (new_Error msg)
      | Conversion_throws y => Normalize_threw y
      end
  end.

(** ** [shouldRetryError] (lines 26-31) *)

Definition shouldRetryError (e : error) (allowedErrors : option (list string)) : bool :=
  match allowedErrors with
  | None => true
  | Some [] => true
  | Some l => existsb (String.eqb (name e)) l
  end.

(** ** Options (lines 1-8) and their defaults (lines 72-77) *)

Record RetryOptions := {
  errors : option (list string);
  intervals : option Q;
  backoff : option Q;
  maxAttempts : option Z;
  maxInterval : option Q;
  jitter : option bool
}.

Definition no_options : RetryOptions :=
  {| errors := None; intervals := None; backoff := None;
     maxAttempts := None; maxInterval := None; jitter := None |}.

(** [x ?? d] *)
Definition nullish {A} (x : option A) (d : A) : A :=
  match x with Some a => a | None => d end.

Record Config := {
  cfg_errors : option (list string);
  cfg_intervals : Q;
  cfg_backoff : Q;
  cfg_maxAttempts : Z;
  cfg_maxInterval : option Q;
  cfg_jitter : bool
}.

Definition resolve_options (options : RetryOptions) : Config :=
  {| cfg_errors := errors options;
     cfg_intervals := nullish (intervals options) 1000%Q;
     cfg_backoff := nullish (backoff options) 2%Q;
     cfg_maxAttempts := nullish (maxAttempts options) 3;
     cfg_maxInterval := maxInterval options;
     cfg_jitter := nullish (jitter options) false |}.

(** ** Effects of one call of the wrapped function *)

Inductive event :=
| Call            (* one invocation of [fn] *)
| Wait (ms : Q).  (* [await delay(ms)] *)

Record st := mkSt {
  calls : nat;          (* invocations of [fn] so far *)
  draws : nat;          (* calls of [Math.random()] so far *)
  trace : list event
}.

Definition M (A : Type) : Type := st -> A * st.

Definition ret {A} (a : A) : M A := fun s => (a, s).

Definition bind {A B} (m : M A) (k : A -> M B) : M B :=
  fun s => let '(a, s') := m s in k a s'.

Notation "x <- m ;; k" := (bind m (fun x => k))
  (at level 61, m at next level, right associativity).
Notation "m ;;; k" := (bind m (fun _ => k))
  (at level 61, right associativity).

(** Outcome of [await fn(...args)]. *)
Inductive outcome (R : Type) :=
| Returns (r : R)
| Throws (x : raised).
Arguments Returns {R} r.
Arguments Throws {R} x.

(** Settled state of the promise returned by the wrapper: resolved, rejected
    by a [throw lastError] ([None] is [undefined]), or rejected with an
    exception raised inside the [catch] block by [String(error)]. *)
Inductive result (R : Type) :=
| Resolved (r : R)
| Rejected (e : option error)
| Rejected_thrown (y : raised).
Arguments Resolved {R} r.
Arguments Rejected {R} e.
Arguments Rejected_thrown {R} y.

Section Retry.

Context {R : Type}.
Variable fn : nat -> outcome R.
Variable rng : nat -> Q.

Definition invoke : M (outcome R) :=
  fun s => (fn (calls s), mkSt (S (calls s)) (draws s) (trace s ++ [Call])).

Definition math_random : M Q :=
  fun s => (rng (draws s), mkSt (calls s) (S (draws s)) (trace s)).

Definition delay (ms : Q) : M unit :=
  fun s => (tt, mkSt (calls s) (draws s) (trace s ++ [Wait ms])).

(** [calculateDelay] (lines 38-60). *)
Definition calculateDelay (baseInterval backoff_ : Q) (attempt : Z)
    (maxInterval_ : option Q) (jitter_ : bool) : M Q :=
  let delayMs := (baseInterval * Qpower backoff_ attempt)%Q in
  delayMs <- (if jitter_ then
                r <- math_random ;;
                let jitterFactor := (0.8 + r * 0.4)%Q in
                ret (delayMs * jitterFactor)%Q
              else ret delayMs) ;;
  ret (match maxInterval_ with
       | Some m => Qmin delayMs m
       | None => delayMs
       end).

(** The [for] loop of lines 83-114.  [fuel] bounds the number of
    iterations; it is started at [Z.to_nat (maxAttempts - attempt)], the
    exact number of iterations left, so running out of it coincides with
    the loop condition [attempt < maxAttempts] failing. *)
Fixpoint retry_loop (c : Config) (fuel : nat) (attempt : Z)
    (lastError : option error) : M (result R) :=
  match fuel with
  | O => ret (Rejected lastError)
  | S fuel' =>
      if attempt <? cfg_maxAttempts c then
        o <- invoke ;;
        match o with
        | Returns r => ret (Resolved r)
        | Throws x =>
            match normalize x with
            | Normalize_threw y => ret (Rejected_thrown y)
            | Normalized lastError' =>
                if negb (shouldRetryError lastError' (cfg_errors c)) then
                  ret (Rejected (Some lastError'))
                else if attempt =? cfg_maxAttempts c - 1 then
                  ret (Rejected (Some lastError'))
                else
                  currentInterval <- calculateDelay (cfg_intervals c) (cfg_backoff c)
                                       attempt (cfg_maxInterval c) (cfg_jitter c) ;;
                  delay currentInterval ;;;
                  retry_loop c fuel' (attempt + 1) (Some lastError')
            end
        end
      else ret (Rejected lastError)
  end.

(** One call of the function returned by [retry(fn, options)]. *)
Definition retry (options : RetryOptions) : M (result R) :=
  let c := resolve_options options in
  retry_loop c (Z.to_nat (cfg_maxAttempts c)) 0 None.

End Retry.

Definition st0 : st := mkSt 0 0 [].

(** ** Observations used in the statements *)

(** The value [calculateDelay] returns when [Math.random()] yields [r]. *)
Definition delay_value (c : Config) (attempt : Z) (r : Q) : Q :=
  let delayMs := (cfg_intervals c * Qpower (cfg_backoff c) attempt)%Q in
  let delayMs := if cfg_jitter c then (delayMs * (0.8 + r * 0.4))%Q else delayMs in
  match cfg_maxInterval c with
  | Some m => Qmin delayMs m
  | None => delayMs
  end.

(** Trace of [n] failed, retried attempts starting at attempt index [a]
    with the random source at position [d]: each is an invocation followed
    by the wait computed for its attempt index. *)
Fixpoint retries_trace (rng : nat -> Q) (c : Config) (a : Z) (d : nat) (n : nat)
    : list event :=
  match n with
  | O => []
  | S n' => Call :: Wait (delay_value c a (rng d))
            :: retries_trace rng c (a + 1) (if cfg_jitter c then S d else d) n'
  end.

(** Random numbers consumed by [n] delay computations. *)
Definition jitter_draws (c : Config) (n : nat) : nat :=
  if cfg_jitter c then n else O.

Definition is_wait (e : event) : bool :=
  match e with Wait _ => true | Call => false end.

Definition is_call (e : event) : bool := negb (is_wait e).

Definition count_calls (t : list event) : nat := List.length (filter is_call t).
Definition count_waits (t : list event) : nat := List.length (filter is_wait t).

Definition waits (t : list event) : list Q :=
  flat_map (fun e => match e with Wait ms => [ms] | Call => [] end) t.

(** The promise returned by the wrapper is settled with a value, with an
    [Error], or with the exception [String(error)] threw; never with
    [undefined]. *)
Definition terminal {R} (res : result R) : Prop :=
  (exists r, res = Resolved r) \/ (exists e, res = Rejected (Some e)) \/
  (exists y, res = Rejected_thrown y).

(** Failing twice then succeeding, with the default options. *)
Definition fails_twice (k : nat) : outcome nat :=
  if (k <? 2)%nat then Throws (Thrown_error (new_Error "Temporary failure")) else Returns 42%nat.


(** An operation that always throws [Error("boom")]. *)
Definition always_boom (k : nat) : outcome nat := Throws (Thrown_value (JStr "boom")).

Definition two_attempts : RetryOptions :=
  {| errors := None; intervals := None; backoff := None;
     maxAttempts := Some 2; maxInterval := None; jitter := None |}.

Definition fails_three_times (k : nat) : outcome nat :=
  if (k <? 3)%nat then Throws (Thrown_error (new_Error "Temporary failure")) else Returns 7%nat.

Definition capped_options : RetryOptions :=
  {| errors := None; intervals := Some 1000%Q; backoff := Some 3%Q;
     maxAttempts := Some 4; maxInterval := Some 2000%Q; jitter := None |}.

(** An invocation that threw a value which line 89 turns into an [Error]
    that the [errors] filter retries. *)
Definition retried_failure {R} (o : outcome R) (allowedErrors : option (list string)) : Prop :=
  exists x e, o = Throws x /\ normalize x = Normalized e /\
    shouldRetryError e allowedErrors = true.

(** How the wrapper settles when an invocation throws [x] and the loop
    stops there: with the [Error] built at line 89, or with the exception
    [String(error)] raised there. *)
Definition rejection {R} (n : normalized) : result R :=
  match n with
  | Normalized e => Rejected (Some e)
  | Normalize_threw y => Rejected_thrown y
  end.

(** An operation whose every invocation throws [Object.create(null)]. *)
Definition throws_null_prototype (k : nat) : outcome nat :=
  Throws (Thrown_value null_prototype_object).

Definition custom_error_options : RetryOptions :=
  {| errors := Some ["CustomError"%string]; intervals := None; backoff := None;
     maxAttempts := None; maxInterval := None; jitter := None |}.

(** What each invocation of a loop run returned: all but the last threw a
    retried error, and the last one decides the result. *)
Definition last_outcome {R} (fn : nat -> outcome R) (c : Config) (a : Z)
    (n : nat) (res : result R) : Prop :=
  match res with
  | Resolved r => fn n = Returns r
  | Rejected None => False
  | Rejected (Some e) =>
      exists x, fn n = Throws x /\ normalize x = Normalized e /\
        (shouldRetryError e (cfg_errors c) = false \/ a = cfg_maxAttempts c - 1)
  | Rejected_thrown y => exists x, fn n = Throws x /\ normalize x = Normalize_threw y
  end.


Definition jitter_options : RetryOptions :=
  {| errors := None; intervals := Some 100%Q; backoff := Some 2%Q;
     maxAttempts := Some 4; maxInterval := Some 300%Q; jitter := Some true |}.

(** [options] with [maxAttempts] set to [m]. *)
Definition with_maxAttempts (options : RetryOptions) (m : Z) : RetryOptions :=
  {| errors := errors options; intervals := intervals options; backoff := backoff options;
     maxAttempts := Some m; maxInterval := maxInterval options; jitter := jitter options |}.

(** ** Sample runs *)

Example retry_default_ex :
  retry fails_twice (fun _ => 0%Q) no_options st0
  = (Resolved 42%nat, mkSt 3 0 [Call; Wait (1000 * 1)%Q; Call; Wait (1000 * (2 * 1))%Q; Call]).
Proof. reflexivity. Qed.

(** Delays 1000, 2000 (capped) and 2000 (capped). *)
Example retry_capped_ex :
  map Qred (waits (trace (snd (retry fails_three_times (fun _ => 0%Q) capped_options st0))))
  = [1000; 2000; 2000]%Q.
Proof. reflexivity. Qed.

(** ** Lemmas on the embedding *)

Lemma calculateDelay_run rng b k a mi j s :
  calculateDelay rng b k a mi j s =
  (delay_value {| cfg_errors := None; cfg_intervals := b; cfg_backoff := k;
                  cfg_maxAttempts := 0; cfg_maxInterval := mi; cfg_jitter := j |}
               a (rng (draws s)),
   if j then mkSt (calls s) (S (draws s)) (trace s) else s).
Proof. unfold calculateDelay, delay_value, bind, ret, math_random; destruct j; reflexivity. Qed.

Lemma retry_loop_S {R} (fn : nat -> outcome R) rng c f a le s :
  a < cfg_maxAttempts c ->
  retry_loop fn rng c (S f) a le s =
  match fn (calls s) with
  | Returns r => (Resolved r, mkSt (S (calls s)) (draws s) (trace s ++ [Call]))
  | Throws x =>
      match normalize x with
      | Normalize_threw y =>
          (Rejected_thrown y, mkSt (S (calls s)) (draws s) (trace s ++ [Call]))
      | Normalized e =>
          if negb (shouldRetryError e (cfg_errors c)) then
            (Rejected (Some e), mkSt (S (calls s)) (draws s) (trace s ++ [Call]))
          else if a =? cfg_maxAttempts c - 1 then
            (Rejected (Some e), mkSt (S (calls s)) (draws s) (trace s ++ [Call]))
          else
            retry_loop fn rng c f (a + 1) (Some e)
              (mkSt (S (calls s)) (draws s + jitter_draws c 1)
                    ((trace s ++ [Call]) ++ [Wait (delay_value c a (rng (draws s)))]))
      end
  end.
Proof.
  intros Ha. cbn [retry_loop]. rewrite (proj2 (Z.ltb_lt _ _) Ha).
  unfold bind, invoke, ret. cbn [calls draws trace].
  destruct (fn (calls s)) as [r | x]; [reflexivity |].
  destruct (normalize x) as [e | y]; [| reflexivity].
  destruct (negb _); [reflexivity |].
  destruct (a =? _); [reflexivity |].
  unfold calculateDelay, delay_value, jitter_draws, bind, ret, math_random, delay.
  destruct c as [es b k m mi []]; cbn; rewrite ?Nat.add_1_r, ?Nat.add_0_r; reflexivity.
Qed.

Lemma fuel_S (m a : Z) : a < m -> Z.to_nat (m - a) = S (Z.to_nat (m - (a + 1))).
Proof. intros. rewrite <- Z2Nat.inj_succ by lia. f_equal; lia. Qed.

Lemma draws_after_wait c d : (d + jitter_draws c 1)%nat = if cfg_jitter c then S d else d.
Proof. unfold jitter_draws; destruct (cfg_jitter c); lia. Qed.

Ltac settle_state :=
  f_equal; [lia | rewrite ?draws_after_wait; unfold jitter_draws; destruct cfg_jitter; lia
          | rewrite ?draws_after_wait, <- !app_assoc; reflexivity].

(** Every run of the loop from a reachable attempt index makes [k + 1]
    invocations and [k] waits, the waits being those of attempt indices
    [a], [a + 1], ..., and settles. *)
Lemma retry_loop_shape {R} (fn : nat -> outcome R) rng c :
  forall fuel a le s res s',
  0 <= a < cfg_maxAttempts c ->
  fuel = Z.to_nat (cfg_maxAttempts c - a) ->
  retry_loop fn rng c fuel a le s = (res, s') ->
  exists k : nat,
    a + Z.of_nat k < cfg_maxAttempts c /\
    s' = mkSt (calls s + S k) (draws s + jitter_draws c k)
              (trace s ++ retries_trace rng c a (draws s) k ++ [Call]) /\
    terminal res.
Proof.
  induction fuel as [| f IH]; intros a le s res s' Ha Hf Hrun.
  - lia.
  - rewrite retry_loop_S in Hrun by lia.
    assert (Hs0 : mkSt (S (calls s)) (draws s) (trace s ++ [Call]) =
                  mkSt (calls s + 1) (draws s + jitter_draws c 0)
                       (trace s ++ retries_trace rng c a (draws s) 0 ++ [Call]))
      by (unfold jitter_draws; destruct cfg_jitter; f_equal; lia).
    destruct (fn (calls s)) as [r | x] eqn:Hfn.
    { injection Hrun as <- <-. exists O. split; [lia | split; [exact Hs0 |]].
      left; eauto. }
    destruct (normalize x) as [e | y].
    2:{ injection Hrun as <- <-. exists O. split; [lia | split; [exact Hs0 |]].
        right; right; eauto. }
    destruct (negb _).
    { injection Hrun as <- <-. exists O. split; [lia | split; [exact Hs0 |]].
      right; left; eauto. }
    destruct (a =? cfg_maxAttempts c - 1) eqn:Hlast.
    { injection Hrun as <- <-. exists O. split; [lia | split; [exact Hs0 |]].
      right; left; eauto. }
    apply Z.eqb_neq in Hlast.
    apply IH in Hrun as (k & Hk & -> & Hres); [| lia | rewrite fuel_S in Hf by lia; congruence].
    exists (S k). split; [lia | split; [| exact Hres]].
    cbn [calls draws trace retries_trace]. settle_state.
Qed.

(** [n] failures that are all retried and not at the last attempt move the
    loop [n] attempts ahead. *)
Lemma retry_loop_retries {R} (fn : nat -> outcome R) rng c :
  forall n a le s,
  0 <= a -> a + Z.of_nat n < cfg_maxAttempts c ->
  (forall j, (j < n)%nat -> retried_failure (fn (calls s + j)%nat) (cfg_errors c)) ->
  exists le',
    retry_loop fn rng c (Z.to_nat (cfg_maxAttempts c - a)) a le s =
    retry_loop fn rng c (Z.to_nat (cfg_maxAttempts c - (a + Z.of_nat n)))
      (a + Z.of_nat n) le'
      (mkSt (calls s + n) (draws s + jitter_draws c n)
            (trace s ++ retries_trace rng c a (draws s) n)).
Proof.
  induction n as [| n IH]; intros a le s Ha Hn Hfail.
  - exists le. rewrite Z.add_0_r. destruct s as [cs ds ts]. cbn.
    unfold jitter_draws; destruct cfg_jitter; rewrite !Nat.add_0_r, app_nil_r; reflexivity.
  - destruct (Hfail O ltac:(lia)) as (x & e & Hfn & He & Hretry).
    rewrite Nat.add_0_r in Hfn.
    rewrite fuel_S by lia. rewrite retry_loop_S by lia.
    rewrite Hfn, He, Hretry. cbn [negb].
    replace (a =? cfg_maxAttempts c - 1) with false by (symmetry; apply Z.eqb_neq; lia).
    destruct (IH (a + 1) (Some e)
                (mkSt (S (calls s)) (draws s + jitter_draws c 1)
                   ((trace s ++ [Call]) ++ [Wait (delay_value c a (rng (draws s)))])))
      as (le' & Hle'); [lia | lia | |].
    { intros j Hj. cbn [calls].
      replace (S (calls s) + j)%nat with (calls s + S j)%nat by lia.
      apply Hfail. lia. }
    exists le'. rewrite Hle'.
    replace (a + 1 + Z.of_nat n) with (a + Z.of_nat (S n)) by lia.
    cbn [calls draws trace retries_trace]. f_equal. settle_state.
Qed.

Lemma retries_trace_counts rng c a d n :
  count_calls (retries_trace rng c a d n ++ [Call]) = S n /\
  count_waits (retries_trace rng c a d n ++ [Call]) = n.
Proof.
  revert a d. induction n as [| n IH]; intros a d; [split; reflexivity |].
  destruct (IH (a + 1) (if cfg_jitter c then S d else d)) as [H1 H2].
  unfold count_calls, count_waits in *. cbn. split; congruence.
Qed.

Lemma retries_trace_waits rng c a d n :
  waits (retries_trace rng c a d n ++ [Call]) =
  map (fun j => delay_value c (a + Z.of_nat j) (rng (d + jitter_draws c j)%nat)) (seq 0 n).
Proof.
  revert a d. induction n as [| n IH]; intros a d; [reflexivity |].
  cbn [retries_trace app waits flat_map seq map].
  rewrite <- seq_shift, map_map.
  change (waits (retries_trace rng c (a + 1) (if cfg_jitter c then S d else d) n ++ [Call]))
    with (waits (retries_trace rng c (a + 1) (if cfg_jitter c then S d else d) n ++ [Call])).
  unfold waits in IH. cbn [app]. rewrite IH. cbn -[delay_value].
  f_equal.
  - rewrite Z.add_0_r. unfold jitter_draws. destruct cfg_jitter; rewrite ?Nat.add_0_r; reflexivity.
  - apply map_ext. intros j. f_equal; [lia |]. unfold jitter_draws. destruct cfg_jitter; f_equal; lia.
Qed.

Lemma shouldRetryError_listed (e : error) (l : list string) :
  l <> [] -> shouldRetryError e (Some l) = true <-> In (name e) l.
Proof.
  intros Hne. destruct l as [| a l]; [contradiction |].
  cbn [shouldRetryError]. rewrite existsb_exists. split.
  - intros (y & Hy & Heq). apply String.eqb_eq in Heq. subst. exact Hy.
  - intros Hin. exists (name e). split; [exact Hin | apply String.eqb_refl].
Qed.

Lemma retry_run_shape {R} (fn : nat -> outcome R) rng options s res s' :
  1 <= cfg_maxAttempts (resolve_options options) ->
  retry fn rng options s = (res, s') ->
  exists k : nat,
    (1 <= S k <= Z.to_nat (cfg_maxAttempts (resolve_options options)))%nat /\
    calls s' = (calls s + S k)%nat /\
    trace s' = trace s ++ retries_trace rng (resolve_options options) 0 (draws s) k ++ [Call] /\
    terminal res.
Proof.
  intros Hm Hrun. unfold retry in Hrun.
  apply retry_loop_shape in Hrun as (k & Hk & -> & Hres);
    [| lia | rewrite Z.sub_0_r; reflexivity].
  exists k. cbn [calls trace]. repeat split; auto; lia.
Qed.

(** A first invocation that throws a non-retried error, or that is the
    only permitted one, settles the call. *)
Lemma retry_rejects_first {R} (fn : nat -> outcome R) rng options s x :
  1 <= cfg_maxAttempts (resolve_options options) ->
  fn (calls s) = Throws x ->
  ((forall e, normalize x = Normalized e -> shouldRetryError e (errors options) = false) \/
   cfg_maxAttempts (resolve_options options) = 1) ->
  retry fn rng options s =
    (rejection (normalize x), mkSt (S (calls s)) (draws s) (trace s ++ [Call])).
Proof.
  intros Hm Hfn Hcase. unfold retry.
  rewrite <- (Z.sub_0_r (cfg_maxAttempts _)), fuel_S, retry_loop_S by lia.
  rewrite Hfn. cbn [cfg_errors resolve_options].
  destruct (normalize x) as [e | y]; [| reflexivity].
  destruct Hcase as [Hno | H1].
  - rewrite (Hno e eq_refl). reflexivity.
  - destruct (shouldRetryError _ _); [| reflexivity]. cbn [negb].
    rewrite H1. reflexivity.
Qed.

(** ** Claims *)

(** C1: with [maxAttempts >= 1], one call of the wrapped function invokes
    the operation [k + 1] times with [1 <= k + 1 <= maxAttempts]; between
    consecutive invocations there is exactly one wait, computed for attempt
    indices [0], [1], ..., [k - 1] in turn (the index grows by one per
    failed, retried attempt); and the call settles: it resolves with a
    value, or rejects with an [Error] or with the exception that
    [String(error)] raises at line 89. *)
Theorem retry_invocations_bounded {R} (fn : nat -> outcome R) (rng : nat -> Q)
    (options : RetryOptions) (s : st) (res : result R) (s' : st) :
  1 <= cfg_maxAttempts (resolve_options options) ->
  retry fn rng options s = (res, s') ->
  exists k : nat,
    (1 <= S k <= Z.to_nat (cfg_maxAttempts (resolve_options options)))%nat /\
    calls s' = (calls s + S k)%nat /\
    trace s' = trace s ++ retries_trace rng (resolve_options options) 0 (draws s) k ++ [Call] /\
    terminal res.
Proof. apply retry_run_shape. Qed.

Lemma retry_invocations_bounded_witness :
  exists k : nat,
    (1 <= S k <= Z.to_nat (cfg_maxAttempts (resolve_options no_options)))%nat /\
    calls (snd (retry fails_twice (fun _ => 0%Q) no_options st0)) = (calls st0 + S k)%nat /\
    trace (snd (retry fails_twice (fun _ => 0%Q) no_options st0)) =
      trace st0 ++ retries_trace (fun _ => 0%Q) (resolve_options no_options) 0 (draws st0) k ++ [Call] /\
    terminal (fst (retry fails_twice (fun _ => 0%Q) no_options st0)).
Proof.
  apply (retry_invocations_bounded fails_twice (fun _ => 0%Q) no_options st0).
  - cbn. lia.
  - reflexivity.
Defined.

(** C2: if the first [k - 1] invocations fail with retryable errors and the
    [k]-th succeeds ([1 <= k <= maxAttempts]), the wrapper resolves with
    that result after exactly [k] invocations and [k - 1] waits, the last
    event being the successful invocation. *)
Theorem retry_success_at_k {R} (fn : nat -> outcome R) (rng : nat -> Q)
    (options : RetryOptions) (s : st) (k : nat) (r : R) :
  (1 <= k)%nat ->
  Z.of_nat k <= cfg_maxAttempts (resolve_options options) ->
  (forall j, (j < k - 1)%nat -> retried_failure (fn (calls s + j)%nat) (errors options)) ->
  fn (calls s + (k - 1))%nat = Returns r ->
  retry fn rng options s =
    (Resolved r,
     mkSt (calls s + k) (draws s + jitter_draws (resolve_options options) (k - 1))
          (trace s ++ retries_trace rng (resolve_options options) 0 (draws s) (k - 1) ++ [Call])) /\
  count_calls (retries_trace rng (resolve_options options) 0 (draws s) (k - 1) ++ [Call]) = k /\
  count_waits (retries_trace rng (resolve_options options) 0 (draws s) (k - 1) ++ [Call]) = (k - 1)%nat.
Proof.
  intros Hk Hmax Hfail Hok.
  set (c := resolve_options options).
  destruct (retries_trace_counts rng c 0 (draws s) (k - 1)) as [Hc Hw].
  split; [| split; [rewrite Hc; lia | exact Hw]].
  unfold retry. fold c.
  destruct (retry_loop_retries fn rng c (k - 1) 0 None s) as (le & Hle);
    [lia | unfold c in *; lia | exact Hfail |].
  rewrite Z.sub_0_r in Hle. rewrite Hle.
  rewrite fuel_S by (unfold c in *; lia).
  rewrite retry_loop_S by (unfold c in *; lia).
  cbn [calls draws trace]. rewrite Hok.
  f_equal. f_equal; [lia | rewrite app_assoc; reflexivity].
Qed.

Lemma retry_success_at_k_witness :
  retry fails_twice (fun _ => 0%Q) no_options st0 =
    (Resolved 42%nat,
     mkSt (calls st0 + 3) (draws st0 + jitter_draws (resolve_options no_options) (3 - 1))
          (trace st0 ++ retries_trace (fun _ => 0%Q) (resolve_options no_options) 0 (draws st0) (3 - 1) ++ [Call])) /\
  count_calls (retries_trace (fun _ => 0%Q) (resolve_options no_options) 0 (draws st0) (3 - 1) ++ [Call]) = 3%nat /\
  count_waits (retries_trace (fun _ => 0%Q) (resolve_options no_options) 0 (draws st0) (3 - 1) ++ [Call]) = (3 - 1)%nat.
Proof.
  apply (retry_success_at_k fails_twice (fun _ => 0%Q) no_options st0 3 42%nat).
  - lia.
  - cbn. lia.
  - intros j Hj. exists (Thrown_error (new_Error "Temporary failure")), (new_Error "Temporary failure").
    cbn. destruct j as [| [| j]]; [repeat split | repeat split | lia].
  - reflexivity.
Defined.



(** C4: [shouldRetryError] returns [true] when the allowed list is absent
    or empty; otherwise it returns [true] exactly when the error's [name]
    is, as a whole string, an element of the list. *)
Theorem shouldRetryError_spec (e : error) (allowedErrors : option (list string)) :
  match allowedErrors with
  | None | Some [] => shouldRetryError e allowedErrors = true
  | Some l => shouldRetryError e allowedErrors = true <-> In (name e) l
  end.
Proof.
  destruct allowedErrors as [[| a l] |]; try reflexivity.
  apply shouldRetryError_listed. discriminate.
Qed.

(** C5: when the first invocation throws and the error built from it at
    line 89 has a [name] that is not in a non-empty [errors] list, the
    wrapper rejects with that normalized error after one invocation, with no
    wait and no random draw, whatever [maxAttempts] is. (If [String(error)]
    throws at line 89 instead, the call settles just as early, rejected with
    that exception.) *)
Theorem retry_non_retryable_first {R} (fn : nat -> outcome R) (rng : nat -> Q)
    (options : RetryOptions) (s : st) (l : list string) (x : raised) :
  1 <= cfg_maxAttempts (resolve_options options) ->
  errors options = Some l -> l <> [] ->
  (forall e, normalize x = Normalized e -> ~ In (name e) l) ->
  fn (calls s) = Throws x ->
  retry fn rng options s =
    (rejection (normalize x), mkSt (S (calls s)) (draws s) (trace s ++ [Call])).
Proof.
  intros Hm Hl Hne Hnin Hfn.
  apply retry_rejects_first; [exact Hm | exact Hfn |]. left. intros e He.
  rewrite Hl. destruct (shouldRetryError _ _) eqn:Hr; [| reflexivity].
  exfalso. apply (Hnin e He), (shouldRetryError_listed _ l Hne), Hr.
Qed.

Lemma retry_non_retryable_first_witness :
  retry (fun _ => Throws (Thrown_error (mkError "ValidationError"%string "bad"%string)) : outcome nat)
        (fun _ => 0%Q)
        {| errors := Some ["NetworkError"%string; "TimeoutError"%string]; intervals := None; backoff := None;
           maxAttempts := Some 5; maxInterval := None; jitter := None |} st0 =
    (rejection (normalize (Thrown_error (mkError "ValidationError"%string "bad"%string))),
     mkSt (S (calls st0)) (draws st0) (trace st0 ++ [Call])).
Proof.
  apply (retry_non_retryable_first _ _ _ st0 ["NetworkError"%string; "TimeoutError"%string]).
  - cbn. lia.
  - reflexivity.
  - discriminate.
  - intros e He. injection He as <-. cbn. intros [H | [H | []]]; discriminate.
  - reflexivity.
Defined.

(** C6: when all [maxAttempts] invocations fail with retryable errors, the
    wrapper rejects with the normalized error of the last invocation after
    exactly [maxAttempts] invocations and [maxAttempts - 1] waits, the last
    event being the last invocation (no trailing wait). *)
Theorem retry_exhaustion {R} (fn : nat -> outcome R) (rng : nat -> Q)
    (options : RetryOptions) (s : st) (xs : nat -> raised) (es : nat -> error) :
  1 <= cfg_maxAttempts (resolve_options options) ->
  (forall j, (j < Z.to_nat (cfg_maxAttempts (resolve_options options)))%nat ->
     fn (calls s + j)%nat = Throws (xs j) /\
     normalize (xs j) = Normalized (es j) /\
     shouldRetryError (es j) (errors options) = true) ->
  let n := Z.to_nat (cfg_maxAttempts (resolve_options options)) in
  retry fn rng options s =
    (Rejected (Some (es (n - 1)%nat)),
     mkSt (calls s + n) (draws s + jitter_draws (resolve_options options) (n - 1))
          (trace s ++ retries_trace rng (resolve_options options) 0 (draws s) (n - 1) ++ [Call])) /\
  count_calls (retries_trace rng (resolve_options options) 0 (draws s) (n - 1) ++ [Call]) = n /\
  count_waits (retries_trace rng (resolve_options options) 0 (draws s) (n - 1) ++ [Call]) = (n - 1)%nat.
Proof.
  intros Hm Hfail n.
  set (c := resolve_options options) in *.
  destruct (retries_trace_counts rng c 0 (draws s) (n - 1)) as [Hc Hw].
  split; [| split; [rewrite Hc; unfold n; lia | exact Hw]].
  unfold retry. fold c.
  destruct (retry_loop_retries fn rng c (n - 1) 0 None s) as (le & Hle);
    [lia | unfold n; lia | |].
  { intros j Hj. destruct (Hfail j ltac:(unfold n in Hj; lia)) as (H1 & H2 & H3).
    exists (xs j), (es j). auto. }
  rewrite Z.sub_0_r in Hle. rewrite Hle.
  rewrite fuel_S by (unfold n; lia).
  rewrite retry_loop_S by (unfold n; lia).
  cbn [calls draws trace].
  destruct (Hfail (n - 1)%nat ltac:(unfold n; lia)) as (Hx & He & Hr).
  rewrite Hx, He. cbn [cfg_errors c resolve_options]. rewrite Hr. cbn [negb].
  replace (0 + Z.of_nat (n - 1) =? cfg_maxAttempts c - 1) with true
    by (symmetry; apply Z.eqb_eq; unfold n; lia).
  f_equal. f_equal; [unfold n; lia | rewrite app_assoc; reflexivity].
Qed.

Lemma retry_exhaustion_witness :
  retry always_boom (fun _ => 0%Q) two_attempts st0 =
    (Rejected (Some (new_Error "boom")),
     mkSt (calls st0 + 2) (draws st0 + jitter_draws (resolve_options two_attempts) 1)
          (trace st0 ++ retries_trace (fun _ => 0%Q) (resolve_options two_attempts) 0 (draws st0) 1 ++ [Call])) /\
  count_calls (retries_trace (fun _ => 0%Q) (resolve_options two_attempts) 0 (draws st0) 1 ++ [Call]) = 2%nat /\
  count_waits (retries_trace (fun _ => 0%Q) (resolve_options two_attempts) 0 (draws st0) 1 ++ [Call]) = 1%nat.
Proof.
  apply (retry_exhaustion always_boom (fun _ => 0%Q) two_attempts st0
           (fun _ => Thrown_value (JStr "boom")) (fun _ => new_Error "boom")).
  - cbn. lia.
  - intros j _. repeat split.
Defined.

(** C7: with jitter enabled, [calculateDelay] multiplies the exponential
    value by a factor [0.8 + r * 0.4] in [[0.8, 1.2)], [r] being the value
    of [Math.random()] in [[0, 1)], and caps the jittered value. *)
Theorem calculateDelay_jitter (rng : nat -> Q) (baseInterval backoff_ : Q) (attempt : Z)
    (maxInterval_ : option Q) (s : st) :
  (0 <= rng (draws s) < 1)%Q ->
  exists f : Q,
    (0.8 <= f < 1.2)%Q /\
    calculateDelay rng baseInterval backoff_ attempt maxInterval_ true s =
      (match maxInterval_ with
       | Some m => Qmin (baseInterval * Qpower backoff_ attempt * f) m
       | None => baseInterval * Qpower backoff_ attempt * f
       end%Q,
       mkSt (calls s) (S (draws s)) (trace s)).
Proof.
  intros [H0 H1]. exists (0.8 + rng (draws s) * 0.4)%Q. split.
  - split; lra.
  - reflexivity.
Qed.

Lemma calculateDelay_jitter_witness :
  exists f : Q,
    (0.8 <= f < 1.2)%Q /\
    calculateDelay (fun _ => 0.999%Q) 1000%Q 4%Q 1 (Some 3000%Q) true st0 =
      (Qmin (1000 * Qpower 4 1 * f) 3000, mkSt (calls st0) (S (draws st0)) (trace st0))%Q.
Proof.
  apply (calculateDelay_jitter (fun _ => 0.999%Q) 1000%Q 4%Q 1 (Some 3000%Q) st0).
  cbn. split; lra.
Defined.

(** C8 (divergence): line 89 computes [String(error)] inside the [catch]
    block. When an invocation throws a non-[Error] value whose conversion
    to a string itself throws (such as [Object.create(null)]), that
    exception escapes the [catch]: no [Error] is built, nothing is
    classified or retried, and the wrapper rejects with the conversion's
    exception after one invocation, whatever the options. *)
Theorem retry_normalizes_errors {R} (fn : nat -> outcome R) (rng : nat -> Q)
    (options : RetryOptions) (s : st) (v : jsval) (y : raised) :
  1 <= cfg_maxAttempts (resolve_options options) ->
  fn (calls s) = Throws (Thrown_value v) ->
  js_String v = Conversion_throws y ->
  retry fn rng options s =
    (Rejected_thrown y, mkSt (S (calls s)) (draws s) (trace s ++ [Call])).
Proof.
  intros Hm Hfn Hv. unfold retry.
  rewrite <- (Z.sub_0_r (cfg_maxAttempts _)), fuel_S, retry_loop_S by lia.
  rewrite Hfn. cbn [normalize]. rewrite Hv. reflexivity.
Qed.

Lemma retry_normalizes_errors_witness :
  retry throws_null_prototype (fun _ => 0%Q) no_options st0 =
    (Rejected_thrown (Thrown_error (mkError "TypeError" "Cannot convert object to primitive value")),
     mkSt (S (calls st0)) (draws st0) (trace st0 ++ [Call])).
Proof.
  apply (retry_normalizes_errors throws_null_prototype (fun _ => 0%Q) no_options st0
           null_prototype_object).
  - cbn. lia.
  - reflexivity.
  - reflexivity.
Defined.

(** C9 (divergence): with [errors = ["CustomError"]] and an operation that
    throws [Object.create(null)], the wrapper does not reject with an
    error named ["Error"]: [String(error)] at line 89 throws a [TypeError],
    which is what the call rejects with, after one invocation. *)
Theorem retry_thrown_value_not_retried :
  retry throws_null_prototype (fun _ => 0%Q) custom_error_options st0 =
    (Rejected_thrown (Thrown_error (mkError "TypeError" "Cannot convert object to primitive value")),
     mkSt 1 0 [Call]) /\
  (forall e, fst (retry throws_null_prototype (fun _ => 0%Q) custom_error_options st0)
             <> Rejected (Some e)).
Proof.
  split; [reflexivity |]. intros e. vm_compute. discriminate.
Qed.

(** C10: with [maxAttempts <= 0] the loop body never runs: the operation
    is not invoked, nothing is awaited, and the wrapper rejects with the
    uninitialized [lastError], i.e. [undefined]. *)
Theorem retry_no_attempts {R} (fn : nat -> outcome R) (rng : nat -> Q)
    (options : RetryOptions) (s : st) :
  cfg_maxAttempts (resolve_options options) <= 0 ->
  retry fn rng options s = (Rejected None, s).
Proof.
  intros Hm. unfold retry.
  replace (Z.to_nat (cfg_maxAttempts (resolve_options options))) with O by lia.
  reflexivity.
Qed.

Lemma retry_no_attempts_witness :
  retry always_boom (fun _ => 0%Q)
        {| errors := None; intervals := None; backoff := None;
           maxAttempts := Some 0; maxInterval := None; jitter := None |} st0 =
    (Rejected None, st0).
Proof.
  apply retry_no_attempts. cbn. lia.
Defined.

(** ** Further properties of the embedding *)

Lemma retry_loop_outcome {R} (fn : nat -> outcome R) rng c :
  forall fuel a le s res s',
  0 <= a < cfg_maxAttempts c ->
  fuel = Z.to_nat (cfg_maxAttempts c - a) ->
  retry_loop fn rng c fuel a le s = (res, s') ->
  exists k : nat,
    a + Z.of_nat k < cfg_maxAttempts c /\
    calls s' = (calls s + S k)%nat /\
    (forall j, (j < k)%nat -> retried_failure (fn (calls s + j)%nat) (cfg_errors c)) /\
    last_outcome fn c (a + Z.of_nat k) (calls s + k)%nat res.
Proof.
  induction fuel as [| f IH]; intros a le s res s' Ha Hf Hrun.
  - lia.
  - rewrite retry_loop_S in Hrun by lia.
    destruct (fn (calls s)) as [r | x] eqn:Hfn.
    { injection Hrun as <- <-. exists O. cbn. rewrite Nat.add_0_r, Z.add_0_r.
      repeat split; [lia | lia | intros; lia | exact Hfn]. }
    destruct (normalize x) as [e | y] eqn:Hn.
    2:{ injection Hrun as <- <-. exists O. cbn. rewrite Nat.add_0_r, Z.add_0_r.
        repeat split; [lia | lia | intros; lia |]. exists x. auto. }
    destruct (shouldRetryError e (cfg_errors c)) eqn:Hr; cbn [negb] in Hrun.
    2:{ injection Hrun as <- <-. exists O. cbn. rewrite Nat.add_0_r, Z.add_0_r.
        repeat split; [lia | lia | intros; lia |]. exists x. auto. }
    destruct (a =? cfg_maxAttempts c - 1) eqn:Hlast.
    { injection Hrun as <- <-. exists O. cbn. rewrite Nat.add_0_r, Z.add_0_r.
      apply Z.eqb_eq in Hlast.
      repeat split; [lia | lia | intros; lia |]. exists x. auto. }
    apply Z.eqb_neq in Hlast.
    apply IH in Hrun as (k & Hk & Hc & Hprev & Hlast');
      [| lia | rewrite fuel_S in Hf by lia; congruence].
    cbn [calls] in Hc, Hprev, Hlast'.
    exists (S k). split; [lia | split; [rewrite Hc; lia | split]].
    + intros [| j] Hj.
      * rewrite Nat.add_0_r. exists x, e. auto.
      * replace (calls s + S j)%nat with (S (calls s) + j)%nat by lia.
        apply Hprev. lia.
    + replace (calls s + S k)%nat with (S (calls s) + k)%nat by lia.
      replace (a + Z.of_nat (S k)) with (a + 1 + Z.of_nat k) by lia.
      exact Hlast'.
Qed.

Lemma retry_run_outcome {R} (fn : nat -> outcome R) rng options s res s' :
  1 <= cfg_maxAttempts (resolve_options options) ->
  retry fn rng options s = (res, s') ->
  exists k : nat,
    Z.of_nat k < cfg_maxAttempts (resolve_options options) /\
    calls s' = (calls s + S k)%nat /\
    (forall j, (j < k)%nat -> retried_failure (fn (calls s + j)%nat) (errors options)) /\
    last_outcome fn (resolve_options options) (Z.of_nat k) (calls s + k)%nat res.
Proof.
  intros Hm Hrun. unfold retry in Hrun.
  apply retry_loop_outcome in Hrun; [| lia | rewrite Z.sub_0_r; reflexivity].
  exact Hrun.
Qed.





(** When no [errors] filter is set (absent or empty), a rejection through
    [throw lastError] happens only after all [maxAttempts] invocations.
    (A rejection with the exception [String(error)] raises at line 89 can
    come earlier.) *)
Theorem retry_unfiltered_uses_budget {R} (fn : nat -> outcome R) (rng : nat -> Q)
    (options : RetryOptions) (s : st) (e : option error) (s' : st) :
  errors options = None \/ errors options = Some [] ->
  1 <= cfg_maxAttempts (resolve_options options) ->
  retry fn rng options s = (Rejected e, s') ->
  Z.of_nat (calls s' - calls s) = cfg_maxAttempts (resolve_options options).
Proof.
  intros Hnone Hm Hrun.
  destruct (retry_run_outcome fn rng options s _ s' Hm Hrun) as (k & Hk & Hc & _ & Hlast).
  destruct e as [e |]; [| contradiction].
  destruct Hlast as (x & _ & _ & [Hno | Hend]).
  - cbn [cfg_errors resolve_options] in Hno.
    destruct Hnone as [H | H]; rewrite H in Hno; discriminate.
  - lia.
Qed.

Lemma retry_unfiltered_uses_budget_witness :
  Z.of_nat (calls (snd (retry always_boom (fun _ => 0%Q) two_attempts st0)) - calls st0)
  = cfg_maxAttempts (resolve_options two_attempts).
Proof.
  apply (retry_unfiltered_uses_budget always_boom (fun _ => 0%Q) two_attempts st0
           (Some (new_Error "boom"))).
  - left. reflexivity.
  - cbn. lia.
  - reflexivity.
Defined.

Lemma retry_run_state {R} (fn : nat -> outcome R) rng options s res s' :
  1 <= cfg_maxAttempts (resolve_options options) ->
  retry fn rng options s = (res, s') ->
  exists k : nat,
    Z.of_nat k < cfg_maxAttempts (resolve_options options) /\
    s' = mkSt (calls s + S k) (draws s + jitter_draws (resolve_options options) k)
              (trace s ++ retries_trace rng (resolve_options options) 0 (draws s) k ++ [Call]).
Proof.
  intros Hm Hrun. unfold retry in Hrun.
  apply retry_loop_shape in Hrun as (k & Hk & -> & _);
    [| lia | rewrite Z.sub_0_r; reflexivity].
  exists k. split; [lia | reflexivity].
Qed.

Lemma delay_value_le_cap c a r m :
  cfg_maxInterval c = Some m -> (delay_value c a r <= m)%Q.
Proof. intros Hm. unfold delay_value. rewrite Hm. apply Q.le_min_r. Qed.




(** [Math.random()] is called exactly once per wait when [jitter] is set
    and never otherwise: the operation is invoked once per [Call] event and
    the random source advances by the number of [Wait] events, or not at
    all. *)
Theorem retry_random_draws {R} (fn : nat -> outcome R) (rng : nat -> Q)
    (options : RetryOptions) (s : st) (res : result R) (s' : st) :
  1 <= cfg_maxAttempts (resolve_options options) ->
  retry fn rng options s = (res, s') ->
  exists t : list event,
    trace s' = trace s ++ t /\
    calls s' = (calls s + count_calls t)%nat /\
    draws s' = (draws s + if cfg_jitter (resolve_options options) then count_waits t else O)%nat.
Proof.
  intros Hm Hrun.
  destruct (retry_run_state fn rng options s res s' Hm Hrun) as (k & _ & ->).
  destruct (retries_trace_counts rng (resolve_options options) 0 (draws s) k) as [Hc Hw].
  eexists. split; [reflexivity |]. cbn [calls draws]. rewrite Hc, Hw.
  split; [reflexivity |]. unfold jitter_draws. destruct cfg_jitter; reflexivity.
Qed.

Lemma retry_random_draws_witness :
  exists t : list event,
    trace (snd (retry always_boom (fun _ => 0.5%Q) jitter_options st0)) = trace st0 ++ t /\
    calls (snd (retry always_boom (fun _ => 0.5%Q) jitter_options st0)) = (calls st0 + count_calls t)%nat /\
    draws (snd (retry always_boom (fun _ => 0.5%Q) jitter_options st0)) =
      (draws st0 + if cfg_jitter (resolve_options jitter_options) then count_waits t else O)%nat.
Proof.
  apply (retry_random_draws always_boom (fun _ => 0.5%Q) jitter_options st0
           (fst (retry always_boom (fun _ => 0.5%Q) jitter_options st0))).
  - cbn. lia.
  - reflexivity.
Defined.

(** With [maxInterval] set, no wait of a call exceeds it, with or without
    jitter. *)
Theorem retry_waits_capped {R} (fn : nat -> outcome R) (rng : nat -> Q)
    (options : RetryOptions) (s : st) (res : result R) (s' : st) (m : Q) :
  1 <= cfg_maxAttempts (resolve_options options) ->
  maxInterval options = Some m ->
  retry fn rng options s = (res, s') ->
  exists t : list event, trace s' = trace s ++ t /\ Forall (fun d => d <= m)%Q (waits t).
Proof.
  intros Hm Hcap Hrun.
  destruct (retry_run_state fn rng options s res s' Hm Hrun) as (k & _ & ->).
  eexists. split; [reflexivity |]. rewrite retries_trace_waits.
  apply Forall_forall. intros d Hd. apply in_map_iff in Hd as (j & <- & _).
  apply delay_value_le_cap. exact Hcap.
Qed.

Lemma retry_waits_capped_witness :
  exists t : list event,
    trace (snd (retry always_boom (fun _ => 0.9%Q) jitter_options st0)) = trace st0 ++ t /\
    Forall (fun d => d <= 300)%Q (waits t).
Proof.
  apply (retry_waits_capped always_boom (fun _ => 0.9%Q) jitter_options st0
           (fst (retry always_boom (fun _ => 0.9%Q) jitter_options st0))).
  - cbn. lia.
  - reflexivity.
  - reflexivity.
Defined.





(** With [maxAttempts = 1] the operation is invoked once, nothing is
    awaited and no random number is drawn. *)
Theorem retry_single_attempt {R} (fn : nat -> outcome R) (rng : nat -> Q)
    (options : RetryOptions) (s : st) (res : result R) (s' : st) :
  cfg_maxAttempts (resolve_options options) = 1 ->
  retry fn rng options s = (res, s') ->
  s' = mkSt (S (calls s)) (draws s) (trace s ++ [Call]).
Proof.
  intros Hm Hrun.
  destruct (retry_run_state fn rng options s res s' ltac:(lia) Hrun) as (k & Hk & ->).
  replace k with O by lia. unfold jitter_draws.
  destruct cfg_jitter; f_equal; lia.
Qed.

Lemma retry_single_attempt_witness :
  snd (retry always_boom (fun _ => 0.5%Q) (with_maxAttempts jitter_options 1) st0) =
    mkSt (S (calls st0)) (draws st0) (trace st0 ++ [Call]).
Proof.
  apply (retry_single_attempt always_boom (fun _ => 0.5%Q) (with_maxAttempts jitter_options 1) st0
           (fst (retry always_boom (fun _ => 0.5%Q) (with_maxAttempts jitter_options 1) st0))).
  - reflexivity.
  - reflexivity.
Defined.

(** With no options, a call makes at most three invocations, waits 1000 ms
    and then 2000 ms between them, and draws no random number. *)
Theorem retry_default_options {R} (fn : nat -> outcome R) (rng : nat -> Q)
    (s : st) (res : result R) (s' : st) :
  retry fn rng no_options s = (res, s') ->
  exists t : list event,
    trace s' = trace s ++ t /\
    (calls s < calls s' <= calls s + 3)%nat /\
    map Qred (waits t) = firstn (calls s' - calls s - 1) [1000; 2000]%Q /\
    draws s' = draws s.
Proof.
  intros Hrun.
  destruct (retry_run_state fn rng no_options s res s' ltac:(cbn; lia) Hrun) as (k & Hk & ->).
  eexists. split; [reflexivity |]. cbn [calls draws].
  cbn in Hk. unfold jitter_draws. cbn [cfg_jitter resolve_options nullish jitter no_options].
  split; [lia | split; [| lia]].
  replace (calls s + S k - calls s - 1)%nat with k by lia.
  destruct k as [| [| [| k]]]; [reflexivity | reflexivity | reflexivity | lia].
Qed.

Lemma retry_default_options_witness :
  exists t : list event,
    trace (snd (retry fails_twice (fun _ => 0%Q) no_options st0)) = trace st0 ++ t /\
    (calls st0 < calls (snd (retry fails_twice (fun _ => 0%Q) no_options st0)) <= calls st0 + 3)%nat /\
    map Qred (waits t) =
      firstn (calls (snd (retry fails_twice (fun _ => 0%Q) no_options st0)) - calls st0 - 1)
        [1000; 2000]%Q /\
    draws (snd (retry fails_twice (fun _ => 0%Q) no_options st0)) = draws st0.
Proof.
  apply (retry_default_options fails_twice (fun _ => 0%Q) st0
           (fst (retry fails_twice (fun _ => 0%Q) no_options st0))).
  reflexivity.
Defined.

Lemma retries_trace_ext rng c c' a d n :
  cfg_intervals c = cfg_intervals c' -> cfg_backoff c = cfg_backoff c' ->
  cfg_maxInterval c = cfg_maxInterval c' -> cfg_jitter c = cfg_jitter c' ->
  retries_trace rng c a d n = retries_trace rng c' a d n.
Proof.
  intros Hb Hk Hm Hj. revert a d.
  induction n as [| n IH]; intros a d; [reflexivity |].
  cbn [retries_trace]. rewrite IH, Hj. unfold delay_value. rewrite Hb, Hk, Hm, Hj.
  reflexivity.
Qed.

(** A call that succeeds under some [maxAttempts] succeeds identically
    (same value, same invocations, same waits) under any larger
    [maxAttempts]: the budget only matters once it is exhausted. *)
Theorem retry_success_stable_under_more_attempts {R} (fn : nat -> outcome R)
    (rng : nat -> Q) (options : RetryOptions) (s : st) (r : R) (s' : st) (m' : Z) :
  1 <= cfg_maxAttempts (resolve_options options) ->
  cfg_maxAttempts (resolve_options options) <= m' ->
  retry fn rng options s = (Resolved r, s') ->
  retry fn rng (with_maxAttempts options m') s = (Resolved r, s').
Proof.
  intros Hm Hm' Hrun.
  destruct (retry_run_outcome fn rng options s _ s' Hm Hrun) as (k & Hk & Hc & Hprev & Hlast).
  destruct (retry_run_state fn rng options s _ s' Hm Hrun) as (k' & _ & Hs').
  assert (k' = k) as -> by (rewrite Hs' in Hc; cbn in Hc; lia).
  cbn [last_outcome] in Hlast. rewrite Hs'.
  set (c' := resolve_options (with_maxAttempts options m')).
  unfold retry. fold c'.
  destruct (retry_loop_retries fn rng c' k 0 None s) as (le & Hle);
    [lia | cbn; lia | exact Hprev |].
  rewrite Z.sub_0_r in Hle. rewrite Hle.
  rewrite fuel_S by (cbn; lia). rewrite retry_loop_S by (cbn; lia).
  cbn [calls draws trace]. rewrite Hlast.
  rewrite (retries_trace_ext rng (resolve_options options) c') by reflexivity.
  f_equal. f_equal; [lia | rewrite app_assoc; reflexivity].
Qed.

Lemma retry_success_stable_under_more_attempts_witness :
  retry fails_three_times (fun _ => 0%Q) (with_maxAttempts capped_options 10) st0 =
    (Resolved 7%nat, snd (retry fails_three_times (fun _ => 0%Q) capped_options st0)).
Proof.
  apply (retry_success_stable_under_more_attempts fails_three_times (fun _ => 0%Q)
           capped_options st0 7%nat).
  - cbn. lia.
  - cbn. lia.
  - reflexivity.
Defined.
